(** * Dashboard fragment: [ConnectionIcon] and [getSessionAccessToken]

    A shallow embedding of the two pieces of executable logic of the
    fragment:

    - [ConnectionIcon] (the themed library icon), whose [src] attribute is
      a template literal over the connection identifier and the resolved
      theme;
    - [getSessionAccessToken] (apps/studio/data/auth/session-access-token-query.ts),
      an async function that guards on [typeof window], awaits the SDK
      call [getAccessToken] inside a [try] block and turns every failure
      into [null].

    JavaScript strings are modelled by [string]; a character stands for
    one code unit in the range 0..255 (Basic Latin and Latin-1
    Supplement), on which [toLowerCase] is a map over code units. *)

From Stdlib Require Import Bool List NArith ZArith Lia.
From Stdlib Require Import Ascii String.
Import ListNotations.

Local Open Scope string_scope.

(* ================================================================= *)
(** ** The JavaScript built-ins the source calls *)

(** [String.prototype] methods. *)
Module JSString.

(** Code units with a lowercase mapping in the range 0..255:
    [A]..[Z] (0x41..0x5A) and the Latin-1 capitals 0xC0..0xDE, the
    multiplication sign 0xD7 excepted. *)
Definition isUpperCase (c : ascii) : bool :=
  let n := N_of_ascii c in
  ((65 <=? n) && (n <=? 90)
   || (192 <=? n) && (n <=? 222) && negb (n =? 215))%N.

(** The lowercase mapping of one code unit: the capital's code plus
    0x20. *)
Definition toLowerCase_unit (c : ascii) : ascii :=
  if isUpperCase c then ascii_of_N (N_of_ascii c + 32) else c.

(** [s.toLowerCase()]. *)
Fixpoint toLowerCase (s : string) : string :=
  match s with
  | EmptyString => EmptyString
  | String c s' => String (toLowerCase_unit c) (toLowerCase s')
  end.

(** [s.startsWith(search)], the test [includes] repeats at every
    position. *)
Fixpoint startsWith (s search : string) {struct search} : bool :=
  match search, s with
  | EmptyString, _ => true
  | String _ _, EmptyString => false
  | String a search', String b s' => Ascii.eqb a b && startsWith s' search'
  end.

(** [s.includes(search)]: [search] occurs in [s] at some position. *)
Fixpoint includes (s search : string) : bool :=
  match s with
  | EmptyString => startsWith EmptyString search
  | String _ s' => startsWith s search || includes s' search
  end.

End JSString.

(** [Array.prototype] methods, on arrays of strings. *)
Module JSArray.

(** [arr.includes(x)]: some element is the same string as [x]. *)
Definition includes (arr : list string) (x : string) : bool :=
  existsb (fun y => String.eqb y x) arr.

End JSArray.

(** Optional chaining [o?.m(...)]: [undefined] when [o] is [undefined],
    the result of the call otherwise. *)
Definition optional_call {A B : Type} (o : option A) (m : A -> B) : option B :=
  match o with
  | None => None
  | Some a => Some (m a)
  end.

(** Truthiness of [boolean | undefined], as the conditional operator
    tests it. *)
Definition truthy (o : option bool) : bool :=
  match o with
  | Some b => b
  | None => false
  end.

(* ================================================================= *)
(** ** [ConnectionIcon] *)

(** The component's props; [connection] is used as a string. *)
Record ConnectionIconProps : Type := {
  connection : string
}.

(** What [useTheme()] of next-themes yields (the setter left out). *)
Record UseThemeProps : Type := {
  themes : list string;
  forcedTheme : option string;
  theme : option string;
  resolvedTheme : option string;
  systemTheme : option string
}.

(** The props of the rendered [Image] element. *)
Record ImageProps : Type := {
  className : string;
  src : string;
  alt : string;
  width : Z;
  height : Z
}.

Section ConnectionIcon.

(** [BASE_PATH] of lib/constants, a build-time constant. *)
Variable BASE_PATH : string.

Definition ConnectionIcon (props : ConnectionIconProps)
    (useTheme : UseThemeProps) : ImageProps :=
  let connection := connection props in
  let resolvedTheme := resolvedTheme useTheme in
  {| className := "transition-all group-hover:scale-110";
     src :=
       BASE_PATH ++ "/img/libraries/" ++ JSString.toLowerCase connection
       ++ (if JSArray.includes ["expo"; "nextjs"]
                (JSString.toLowerCase connection)
           then
             if truthy (optional_call resolvedTheme
                          (fun t => JSString.includes t "dark"))
             then "-dark"
             else ""
           else "")
       ++ "-icon.svg";
     alt := connection ++ " logo";
     width := 12;
     height := 12 |}.

End ConnectionIcon.

(* ================================================================= *)
(** ** [getSessionAccessToken] *)

(** How a promise settles. *)
Inductive Settled (A E : Type) : Type :=
| Fulfilled (value : A)
| Rejected (reason : E).

Arguments Fulfilled {A E} value.
Arguments Rejected {A E} reason.

Section SessionAccessToken.

(** The SDK of lib/gotrue: the type of the tokens it yields, of the
    values it throws, and of its internal state (session, network). *)
Variables Token Err Sdk : Type.

(** One call of the SDK's [getAccessToken()], run to settlement. *)
Variable gotrue_getAccessToken : Sdk -> Settled Token Err * Sdk.

(** The world an invocation runs in: whether the global [window]
    exists, the SDK's state, and how many times [getAccessToken] has
    been called and awaited so far. *)
Record World : Type := {
  window_defined : bool;
  sdk : Sdk;
  getAccessToken_calls : nat
}.

(** An async computation: run from a world, it settles and leaves a
    world. *)
Definition Async (A : Type) : Type := World -> Settled A Err * World.

Definition ret {A : Type} (a : A) : Async A :=
  fun w => (Fulfilled a, w).

Definition bind {A B : Type} (m : Async A) (k : A -> Async B) : Async B :=
  fun w =>
    match m w with
    | (Fulfilled a, w') => k a w'
    | (Rejected e, w') => (Rejected e, w')
    end.

(** [try { m } catch (e) { handler e }]. *)
Definition try_catch {A : Type} (m : Async A) (handler : Err -> Async A)
    : Async A :=
  fun w =>
    match m w with
    | (Fulfilled a, w') => (Fulfilled a, w')
    | (Rejected e, w') => handler e w'
    end.

(** [typeof window === 'undefined']. *)
Definition typeof_window_undefined : Async bool :=
  fun w => (Fulfilled (negb (window_defined w)), w).

(** [await getAccessToken()]: the SDK call is made and counted; a
    rejection is thrown at the await. *)
Definition await_getAccessToken : Async Token :=
  fun w =>
    let (r, s) := gotrue_getAccessToken (sdk w) in
    (r, {| window_defined := window_defined w;
           sdk := s;
           getAccessToken_calls := S (getAccessToken_calls w) |}).

(** [Awaited<ReturnType<typeof getSessionAccessToken>>]: one
    constructor per [return] of the function. *)
Inductive SessionAccessTokenData : Type :=
| EmptyStr                      (* [''] *)
| Null                          (* [null] *)
| AccessToken (t : Token).      (* what [getAccessToken()] resolved to *)

Notation "x <- m ;; k" := (bind m (fun x => k))
  (at level 61, m at next level, right associativity).

Definition getSessionAccessToken : Async SessionAccessTokenData :=
  server_side <- typeof_window_undefined ;;
  if server_side then ret EmptyStr
  else
    try_catch
      (t <- await_getAccessToken ;; ret (AccessToken t))
      (fun _ => ret Null).

End SessionAccessToken.

Arguments window_defined {Sdk} _.
Arguments sdk {Sdk} _.
Arguments getAccessToken_calls {Sdk} _.
Arguments EmptyStr {Token}.
Arguments Null {Token}.
Arguments AccessToken {Token} t.
Arguments getSessionAccessToken {Token Err Sdk} gotrue_getAccessToken _.

(* ================================================================= *)
(** ** Vocabulary of the properties *)

(** [sub] occurs in [s]. *)
Definition contains (s sub : string) : Prop :=
  exists pre post, s = pre ++ sub ++ post.

(** [s] ends in [suffix]. *)
Definition ends_with (s suffix : string) : Prop :=
  exists pre, s = pre ++ suffix.

(** The resolved theme is present and its name contains [dark]. *)
Definition theme_contains_dark (resolved : option string) : Prop :=
  exists t, resolved = Some t /\ contains t "dark".

(** No code unit of [s] is a capital. *)
Definition lowercase (s : string) : Prop :=
  forall i c, String.get i s = Some c -> JSString.isUpperCase c = false.

(** The lowercase form of the identifier is one of the special-cased
    ones. *)
Definition special_cased (connection : string) : Prop :=
  JSString.toLowerCase connection = "expo"
  \/ JSString.toLowerCase connection = "nextjs".

(** The two shapes of an icon path: the lowercased identifier followed
    by [-icon.svg], with or without the [-dark] suffix in between. *)
Definition light_path (BASE_PATH connection : string) : string :=
  BASE_PATH ++ "/img/libraries/" ++ JSString.toLowerCase connection
  ++ "-icon.svg".

Definition dark_path (BASE_PATH connection : string) : string :=
  BASE_PATH ++ "/img/libraries/" ++ JSString.toLowerCase connection
  ++ "-dark" ++ "-icon.svg".

(** The path carries the [-dark] suffix before [-icon.svg]. *)
Definition has_dark_suffix (path : string) : Prop :=
  ends_with path ("-dark" ++ "-icon.svg").

(** The last code unit of a string. *)
Fixpoint last_unit (s : string) : option ascii :=
  match s with
  | EmptyString => None
  | String c EmptyString => Some c
  | String _ s' => last_unit s'
  end.

(* ================================================================= *)
(** ** Concrete instances *)

(** A theme context in which only the resolved theme is set, for
    concrete instances. *)
Definition theme_context (resolved : option string) : UseThemeProps :=
  {| themes := ["light"; "dark"];
     forcedTheme := None;
     theme := resolved;
     resolvedTheme := resolved;
     systemTheme := None |}.

(** An SDK for concrete instances: its state is the list of outcomes
    its next calls will have; with none left, there is no session. *)
Definition scripted_getAccessToken (script : list (Settled string string))
    : Settled string string * list (Settled string string) :=
  match script with
  | [] => (Rejected "AuthSessionMissingError", [])
  | outcome :: script' => (outcome, script')
  end.

(* ================================================================= *)
(** ** [useSessionAccessTokenQuery] *)

(** The values an options object holds: [undefined], booleans, and
    everything else (numbers, callbacks, nested objects), which the
    hook only passes on. *)
Inductive JSValue (Opaque : Type) : Type :=
| JSUndefined
| JSBoolean (b : bool)
| JSOpaque (o : Opaque).

Arguments JSUndefined {Opaque}.
Arguments JSBoolean {Opaque} b.
Arguments JSOpaque {Opaque} o.

(** An object as the list of its own enumerable properties, in order. *)
Definition JSObject (Opaque : Type) : Type := list (string * JSValue Opaque).

(** Property read [o.k]: [undefined] when [o] has no property [k]. *)
Definition get_property {Opaque : Type} (o : JSObject Opaque) (k : string)
    : JSValue Opaque :=
  match find (fun p => String.eqb (fst p) k) o with
  | Some p => snd p
  | None => JSUndefined
  end.

(** The rest element of an object pattern, [{ k1, ..., ...rest }]: the
    properties whose key the pattern did not take, in order. *)
Definition rest_properties {Opaque : Type} (o : JSObject Opaque)
    (taken : list string) : JSObject Opaque :=
  filter (fun p => negb (JSArray.includes taken (fst p))) o.

(** A binding with a default, [k = d]: the default stands in for
    [undefined]. *)
Definition with_default {Opaque : Type} (v d : JSValue Opaque)
    : JSValue Opaque :=
  match v with
  | JSUndefined => d
  | _ => v
  end.

Section SessionAccessTokenQuery.

Variables Token Err Sdk : Type.
Variable gotrue_getAccessToken : Sdk -> Settled Token Err * Sdk.

(** What option values other than booleans are made of. *)
Variable Opaque : Type.

(** [authKeys.accessToken] of ./keys, and the query keys it builds. *)
Variable QueryKey : Type.
Variable authKeys_accessToken : unit -> QueryKey.

(** [useQuery] of @tanstack/react-query: given a key, a query function
    and options, it yields the query's state. *)
Variable UseQueryResult : Type.
Variable useQuery :
  QueryKey -> Async Err Sdk (SessionAccessTokenData Token) ->
  JSObject Opaque -> UseQueryResult.

(** The hook.  Its parameter is the pattern
    [{ enabled = true, ...options }] with default [{}]; the body hands
    [options], and not [enabled], to [useQuery]. *)
Definition useSessionAccessTokenQuery (arg : option (JSObject Opaque))
    : UseQueryResult :=
  let props := match arg with Some o => o | None => [] end in
  let enabled := with_default (get_property props "enabled") (JSBoolean true) in
  let options := rest_properties props ["enabled"] in
  useQuery (authKeys_accessToken tt)
    (getSessionAccessToken gotrue_getAccessToken)
    options.

(** [n] invocations of [getSessionAccessToken], one after the other, as
    a query that is fetched again and again makes them; the values they
    settle with are collected in order. *)
Fixpoint getSessionAccessToken_times (n : nat)
    : Async Err Sdk (list (SessionAccessTokenData Token)) :=
  match n with
  | O => ret Err Sdk []
  | S n' =>
      bind Err Sdk (getSessionAccessToken gotrue_getAccessToken) (fun d =>
      bind Err Sdk (getSessionAccessToken_times n') (fun ds =>
      ret Err Sdk (d :: ds)))
  end.

End SessionAccessTokenQuery.

Arguments useSessionAccessTokenQuery
  {Token Err Sdk} gotrue_getAccessToken {Opaque QueryKey}
  authKeys_accessToken {UseQueryResult} useQuery arg.
Arguments getSessionAccessToken_times
  {Token Err Sdk} gotrue_getAccessToken n _.

(** What [n] successive calls of the SDK's [getAccessToken()] do, from
    the SDK state [s]: the outcomes they have, in order, and the state
    they leave. *)
Fixpoint sdk_outcomes {Token Err Sdk : Type}
    (getAccessToken : Sdk -> Settled Token Err * Sdk) (n : nat) (s : Sdk)
    : list (Settled Token Err) :=
  match n with
  | O => []
  | S n' =>
      fst (getAccessToken s)
      :: sdk_outcomes getAccessToken n' (snd (getAccessToken s))
  end.

Fixpoint sdk_after {Token Err Sdk : Type}
    (getAccessToken : Sdk -> Settled Token Err * Sdk) (n : nat) (s : Sdk)
    : Sdk :=
  match n with
  | O => s
  | S n' => sdk_after getAccessToken n' (snd (getAccessToken s))
  end.

(** The value an invocation settles with for an outcome of the SDK
    call: the token, or [null] for a failure. *)
Definition data_of_outcome {Token Err : Type} (outcome : Settled Token Err)
    : SessionAccessTokenData Token :=
  match outcome with
  | Fulfilled t => AccessToken t
  | Rejected _ => Null
  end.

(* ================================================================= *)
(** ** Facts about strings *)

Section StringFacts.

Lemma append_nil_r (s : string) : s ++ "" = s.
Proof. induction s as [|c s IH]; simpl; [reflexivity | now rewrite IH]. Qed.

Lemma append_assoc (a b c : string) : (a ++ b) ++ c = a ++ b ++ c.
Proof. induction a as [|x a IH]; simpl; [reflexivity | now rewrite IH]. Qed.

Lemma append_length (a b : string) :
  String.length (a ++ b) = String.length a + String.length b.
Proof. induction a as [|x a IH]; simpl; [reflexivity | now rewrite IH]. Qed.

Lemma append_inv_head (a b c : string) : a ++ b = a ++ c -> b = c.
Proof.
  induction a as [|x a IH]; simpl; intros H; [exact H|].
  injection H as H. now apply IH.
Qed.

(** Two ways of cutting one string: one cut point lies before the
    other, and the piece between them is shared. *)
Lemma append_eq_append (a b c d : string) :
  a ++ b = c ++ d ->
  exists m, (a = c ++ m /\ d = m ++ b) \/ (c = a ++ m /\ b = m ++ d).
Proof.
  revert c. induction a as [|x a IH]; intros c H; simpl in H.
  - exists c. right. split; [reflexivity | exact H].
  - destruct c as [|y c]; simpl in H.
    + exists (String x a). left. split; [reflexivity | now symmetry].
    + injection H as Hxy H. subst y.
      destruct (IH c H) as [m [[E1 E2] | [E1 E2]]]; exists m.
      * left. split; [simpl; now rewrite <- E1 | exact E2].
      * right. split; [simpl; now rewrite <- E1 | exact E2].
Qed.

Lemma append_inv_tail (a b c : string) : a ++ c = b ++ c -> a = b.
Proof.
  intros H.
  assert (L : String.length a = String.length b).
  { apply (f_equal String.length) in H. rewrite !append_length in H. lia. }
  destruct (append_eq_append _ _ _ _ H) as [m [[E1 E2] | [E1 E2]]];
    subst; rewrite append_length in L;
    (destruct m; [now rewrite append_nil_r | simpl in L; lia]).
Qed.

Lemma last_unit_append (a b : string) :
  b <> "" -> last_unit (a ++ b) = last_unit b.
Proof.
  intros Hb. induction a as [|x a IH]; simpl; [reflexivity|].
  rewrite <- IH.
  destruct (a ++ b) eqn:E; [|reflexivity].
  destruct a; simpl in E; [contradiction | discriminate].
Qed.

Lemma startsWith_spec (s search : string) :
  JSString.startsWith s search = true <-> exists rest, s = search ++ rest.
Proof.
  revert s. induction search as [|a search IH]; intros s; simpl.
  - split; [intros _; now exists s | reflexivity].
  - destruct s as [|b s].
    + split; [discriminate | intros [rest H]; discriminate].
    + rewrite andb_true_iff, Ascii.eqb_eq, IH. split.
      * intros [-> [rest ->]]. now exists rest.
      * intros [rest H]. injection H as -> ->. split; [reflexivity|].
        now exists rest.
Qed.

(** [includes] decides occurrence. *)
Lemma includes_spec (s search : string) :
  JSString.includes s search = true <-> contains s search.
Proof.
  induction s as [|c s IH]; simpl.
  - rewrite startsWith_spec. split.
    + intros [rest H]. exists "", rest. exact H.
    + intros [pre [post H]]. destruct pre; simpl in H.
      * now exists post.
      * discriminate.
  - rewrite orb_true_iff, IH, startsWith_spec. split.
    + intros [[rest H] | [pre [post H]]].
      * exists "", rest. exact H.
      * exists (String c pre), post. simpl. now rewrite H.
    + intros [pre [post H]]. destruct pre as [|x pre]; simpl in H.
      * left. now exists post.
      * right. injection H as _ H. now exists pre, post.
Qed.

End StringFacts.

(* ================================================================= *)
(** ** Facts about [toLowerCase] *)

Section LowerCaseFacts.

Ltac each_code_unit c :=
  destruct c as [[] [] [] [] [] [] [] []]; vm_compute; reflexivity.

Lemma toLowerCase_unit_not_upper (c : ascii) :
  JSString.isUpperCase (JSString.toLowerCase_unit c) = false.
Proof. each_code_unit c. Qed.

Lemma toLowerCase_unit_idem (c : ascii) :
  JSString.toLowerCase_unit (JSString.toLowerCase_unit c)
  = JSString.toLowerCase_unit c.
Proof.
  unfold JSString.toLowerCase_unit at 1.
  now rewrite toLowerCase_unit_not_upper.
Qed.

Lemma toLowerCase_idem (s : string) :
  JSString.toLowerCase (JSString.toLowerCase s) = JSString.toLowerCase s.
Proof.
  induction s as [|c s IH]; simpl; [reflexivity|].
  now rewrite toLowerCase_unit_idem, IH.
Qed.

Lemma toLowerCase_lowercase (s : string) : lowercase (JSString.toLowerCase s).
Proof.
  induction s as [|c s IH]; intros i x H; simpl in H.
  - discriminate.
  - destruct i as [|i].
    + injection H as <-. apply toLowerCase_unit_not_upper.
    + exact (IH i x H).
Qed.

(** A string is lowercase exactly when [toLowerCase] leaves it alone. *)
Lemma lowercase_iff_fixed (s : string) :
  lowercase s <-> JSString.toLowerCase s = s.
Proof.
  split.
  - induction s as [|c s IH]; intros L; simpl; [reflexivity|].
    rewrite IH by (intros i x H; exact (L (S i) x H)).
    unfold JSString.toLowerCase_unit.
    now rewrite (L 0 c eq_refl).
  - intros <-. apply toLowerCase_lowercase.
Qed.

End LowerCaseFacts.

(* ================================================================= *)
(** ** Facts about the icon path *)

Section IconPathFacts.

Variable BASE_PATH : string.

(** The array test agrees with membership in the special-cased set. *)
Lemma special_cased_includes (connection : string) :
  JSArray.includes ["expo"; "nextjs"] (JSString.toLowerCase connection) = true
  <-> special_cased connection.
Proof.
  unfold JSArray.includes, special_cased. cbn [existsb].
  rewrite !orb_true_iff, !String.eqb_eq. intuition (auto; discriminate).
Qed.

(** The theme test agrees with "present and containing [dark]". *)
Lemma dark_test_spec (resolved : option string) :
  truthy (optional_call resolved (fun t => JSString.includes t "dark")) = true
  <-> theme_contains_dark resolved.
Proof.
  unfold theme_contains_dark. destruct resolved as [t|]; simpl.
  - rewrite includes_spec. split.
    + intros H. now exists t.
    + intros [t' [E H]]. now injection E as ->.
  - split; [discriminate | intros [t [E _]]; discriminate].
Qed.

(** The path is the dark one when both tests pass and the light one
    otherwise. *)
Lemma ConnectionIcon_src (props : ConnectionIconProps) (useTheme : UseThemeProps) :
  src (ConnectionIcon BASE_PATH props useTheme)
  = if JSArray.includes ["expo"; "nextjs"]
         (JSString.toLowerCase (connection props))
       && truthy (optional_call (resolvedTheme useTheme)
                    (fun t => JSString.includes t "dark"))
    then dark_path BASE_PATH (connection props)
    else light_path BASE_PATH (connection props).
Proof.
  unfold ConnectionIcon, dark_path, light_path; cbn [src].
  destruct (JSArray.includes _ _); [|reflexivity].
  destruct (truthy _); reflexivity.
Qed.

Lemma light_path_neq_dark_path (connection : string) :
  light_path BASE_PATH connection <> dark_path BASE_PATH connection.
Proof.
  unfold light_path, dark_path. intros H.
  do 3 apply append_inv_head in H. discriminate.
Qed.

Lemma dark_path_has_dark_suffix (connection : string) :
  has_dark_suffix (dark_path BASE_PATH connection).
Proof.
  exists (BASE_PATH ++ "/img/libraries/" ++ JSString.toLowerCase connection).
  unfold dark_path. now rewrite !append_assoc.
Qed.

(** The light path ends in [-dark-icon.svg] only when the identifier
    itself ends in [-dark]. *)
Lemma light_path_dark_suffix (connection : string) :
  has_dark_suffix (light_path BASE_PATH connection) ->
  ends_with (JSString.toLowerCase connection) "-dark".
Proof.
  unfold has_dark_suffix, light_path. intros [pre H].
  set (l := JSString.toLowerCase connection) in *.
  rewrite <- !append_assoc in H. apply append_inv_tail in H.
  destruct (append_eq_append _ _ _ _ H) as [m [[E1 E2] | [E1 E2]]].
  - destruct m as [|x m].
    + exists "". simpl in E2. now rewrite <- E2.
    + exfalso.
      assert (L : last_unit (String x m) = Some "/"%char).
      { rewrite <- (last_unit_append pre) by discriminate.
        rewrite <- E1. now rewrite last_unit_append by discriminate. }
      destruct m as [|c1 [|c2 [|c3 [|c4 [|c5 m]]]]]; simpl in E2;
        injection E2; intros; subst; simpl in L; discriminate.
  - now exists m.
Qed.

End IconPathFacts.

Lemma expo_not_ends_with_dark : ~ ends_with "expo" "-dark".
Proof.
  intros [pre H]. apply (f_equal String.length) in H.
  rewrite append_length in H. simpl in H. lia.
Qed.

Lemma nextjs_not_ends_with_dark : ~ ends_with "nextjs" "-dark".
Proof.
  intros [pre H].
  destruct pre as [|c [|c' pre]]; simpl in H; try discriminate.
  apply (f_equal String.length) in H. simpl in H.
  rewrite append_length in H. simpl in H. lia.
Qed.

Lemma special_cased_not_ends_with_dark (connection : string) :
  special_cased connection ->
  ~ ends_with (JSString.toLowerCase connection) "-dark".
Proof.
  intros [E | E]; rewrite E;
    [apply expo_not_ends_with_dark | apply nextjs_not_ends_with_dark].
Qed.

(* ================================================================= *)
(** ** Properties of [ConnectionIcon] *)

(** C3. For a connection identifier whose lowercase form is [expo] or
    [nextjs], and for every theme context, the icon path carries the
    [-dark] suffix exactly when the resolved theme is present and its
    name contains [dark]: the path ends in [-dark-icon.svg], and is the
    dark path of the identifier, if and only if that is the case. *)
Theorem ConnectionIcon_special_dark_iff
    (BASE_PATH : string) (props : ConnectionIconProps) (useTheme : UseThemeProps) :
  special_cased (connection props) ->
  (has_dark_suffix (src (ConnectionIcon BASE_PATH props useTheme))
   <-> theme_contains_dark (resolvedTheme useTheme))
  /\ (src (ConnectionIcon BASE_PATH props useTheme)
      = dark_path BASE_PATH (connection props)
      <-> theme_contains_dark (resolvedTheme useTheme)).
Proof.
  intros Hs. rewrite ConnectionIcon_src.
  rewrite (proj2 (special_cased_includes _) Hs). cbn [andb].
  rewrite <- dark_test_spec.
  destruct (truthy _).
  - split; split; intros _; try reflexivity.
    apply dark_path_has_dark_suffix.
  - split; split; try discriminate.
    + intros H. apply light_path_dark_suffix in H.
      now apply special_cased_not_ends_with_dark in H.
    + intros H. now apply light_path_neq_dark_path in H.
Qed.

Lemma ConnectionIcon_special_dark_iff_witness :
  special_cased "NextJS"
  /\ (has_dark_suffix
        (src (ConnectionIcon "/dashboard" {| connection := "NextJS" |}
                (theme_context (Some "dark"))))
      <-> theme_contains_dark (Some "dark")).
Proof.
  assert (H : special_cased "NextJS") by (right; reflexivity).
  split; [exact H|].
  exact (proj1 (ConnectionIcon_special_dark_iff "/dashboard"
                  {| connection := "NextJS" |}
                  (theme_context (Some "dark")) H)).
Defined.

(** An identifier that itself ends in [-dark] brings that text into
    the light path. *)
Lemma light_path_dark_suffix_of_name (BASE_PATH connection : string) :
  ends_with (JSString.toLowerCase connection) "-dark" ->
  has_dark_suffix (light_path BASE_PATH connection).
Proof.
  intros [pre E]. exists (BASE_PATH ++ "/img/libraries/" ++ pre).
  unfold light_path. rewrite E. now rewrite !append_assoc.
Qed.

(** C4, as amended.  For a connection identifier whose lowercase form
    is neither [expo] nor [nextjs], and for every theme context, no
    [-dark] suffix is put after the identifier: the path is the light
    path of the identifier and differs from its dark path.  The path
    ends in [-dark-icon.svg] exactly when the lowercased identifier
    itself ends in [-dark]. *)
Theorem ConnectionIcon_plain_no_dark_suffix
    (BASE_PATH : string) (props : ConnectionIconProps) (useTheme : UseThemeProps) :
  ~ special_cased (connection props) ->
  src (ConnectionIcon BASE_PATH props useTheme)
  = light_path BASE_PATH (connection props)
  /\ src (ConnectionIcon BASE_PATH props useTheme)
     <> dark_path BASE_PATH (connection props)
  /\ (has_dark_suffix (src (ConnectionIcon BASE_PATH props useTheme))
      <-> ends_with (JSString.toLowerCase (connection props)) "-dark").
Proof.
  intros Hs. rewrite ConnectionIcon_src.
  destruct (JSArray.includes _ _) eqn:E.
  - now apply special_cased_includes in E.
  - cbn [andb]. split; [reflexivity|]. split.
    + apply light_path_neq_dark_path.
    + split.
      * apply light_path_dark_suffix.
      * apply light_path_dark_suffix_of_name.
Qed.

Lemma ConnectionIcon_plain_no_dark_suffix_witness :
  ~ special_cased "Postgres"
  /\ src (ConnectionIcon "/dashboard" {| connection := "Postgres" |}
            (theme_context (Some "dark")))
     = light_path "/dashboard" "Postgres".
Proof.
  assert (H : ~ special_cased "Postgres")
    by (intros [E | E]; vm_compute in E; discriminate).
  split; [exact H|].
  exact (proj1 (ConnectionIcon_plain_no_dark_suffix "/dashboard"
                  {| connection := "Postgres" |}
                  (theme_context (Some "dark")) H)).
Defined.

(** C4, as first worded, fails: the identifier [expo-dark] is not
    special-cased, and its path, in a light theme as in any other, is
    [/dashboard/img/libraries/expo-dark-icon.svg], which carries the
    [-dark] suffix. *)
Lemma ConnectionIcon_plain_dark_suffix_counterexample :
  ~ special_cased "expo-dark"
  /\ src (ConnectionIcon "/dashboard" {| connection := "expo-dark" |}
            (theme_context (Some "light")))
     = "/dashboard/img/libraries/expo-dark-icon.svg"
  /\ has_dark_suffix
       (src (ConnectionIcon "/dashboard" {| connection := "expo-dark" |}
               (theme_context (Some "light")))).
Proof.
  split; [|split].
  - intros [E | E]; vm_compute in E; discriminate.
  - reflexivity.
  - exists "/dashboard/img/libraries/expo". reflexivity.
Qed.

(** C5. For the identifier [nextjs] and a resolved theme whose name
    contains [dark], the path is [BASE_PATH/img/libraries/nextjs-dark-icon.svg];
    for the identifier [postgres] and any theme context, it is
    [BASE_PATH/img/libraries/postgres-icon.svg]. *)
Theorem ConnectionIcon_nextjs_postgres_paths
    (BASE_PATH : string) (darkTheme anyTheme : UseThemeProps) :
  theme_contains_dark (resolvedTheme darkTheme) ->
  src (ConnectionIcon BASE_PATH {| connection := "nextjs" |} darkTheme)
  = BASE_PATH ++ "/img/libraries/nextjs-dark-icon.svg"
  /\ src (ConnectionIcon BASE_PATH {| connection := "postgres" |} anyTheme)
     = BASE_PATH ++ "/img/libraries/postgres-icon.svg".
Proof.
  intros Hd. rewrite !ConnectionIcon_src.
  rewrite (proj2 (dark_test_spec _) Hd). split; reflexivity.
Qed.

Lemma ConnectionIcon_nextjs_postgres_paths_witness :
  theme_contains_dark (Some "dark")
  /\ src (ConnectionIcon "/dashboard" {| connection := "nextjs" |}
            (theme_context (Some "dark")))
     = "/dashboard/img/libraries/nextjs-dark-icon.svg"
  /\ src (ConnectionIcon "/dashboard" {| connection := "postgres" |}
            (theme_context (Some "light")))
     = "/dashboard/img/libraries/postgres-icon.svg".
Proof.
  assert (H : theme_contains_dark (Some "dark")).
  { exists "dark". split; [reflexivity|]. now exists "", "". }
  split; [exact H|].
  exact (ConnectionIcon_nextjs_postgres_paths "/dashboard"
           (theme_context (Some "dark")) (theme_context (Some "light")) H).
Defined.

(** C9. The icon path does not depend on the case of the identifier:
    the path for a connection string equals the path for its lowercase
    form, and the identifier that stands in the path, between
    [BASE_PATH/img/libraries/] and the optional [-dark] suffix, is the
    lowercase form, in which no capital occurs. *)
Theorem ConnectionIcon_src_case_insensitive
    (BASE_PATH c : string) (useTheme : UseThemeProps) :
  src (ConnectionIcon BASE_PATH {| connection := c |} useTheme)
  = src (ConnectionIcon BASE_PATH
           {| connection := JSString.toLowerCase c |} useTheme)
  /\ exists suffix,
       src (ConnectionIcon BASE_PATH {| connection := c |} useTheme)
       = BASE_PATH ++ "/img/libraries/" ++ JSString.toLowerCase c
         ++ suffix ++ "-icon.svg"
       /\ (suffix = "" \/ suffix = "-dark")
       /\ lowercase (JSString.toLowerCase c).
Proof.
  split.
  - rewrite !ConnectionIcon_src. unfold dark_path, light_path.
    cbn [connection]. now rewrite !toLowerCase_idem.
  - rewrite ConnectionIcon_src. cbn [connection].
    destruct (_ && _).
    + exists "-dark". split; [reflexivity|]. split; [now right|].
      apply toLowerCase_lowercase.
    + exists "". split; [reflexivity|]. split; [now left|].
      apply toLowerCase_lowercase.
Qed.

(** C10. When no theme is resolved, the path is the light path for
    every identifier, the special-cased ones included: it differs from
    the dark path and does not end in [-dark-icon.svg] unless the
    identifier itself ends in [-dark]. *)
Theorem ConnectionIcon_unresolved_theme_light
    (BASE_PATH : string) (props : ConnectionIconProps) (useTheme : UseThemeProps) :
  resolvedTheme useTheme = None ->
  src (ConnectionIcon BASE_PATH props useTheme)
  = light_path BASE_PATH (connection props)
  /\ src (ConnectionIcon BASE_PATH props useTheme)
     <> dark_path BASE_PATH (connection props)
  /\ (special_cased (connection props) ->
      ~ has_dark_suffix (src (ConnectionIcon BASE_PATH props useTheme))).
Proof.
  intros Ht. rewrite ConnectionIcon_src, Ht. cbn [optional_call truthy].
  rewrite andb_false_r. split; [reflexivity|]. split.
  - apply light_path_neq_dark_path.
  - intros Hs H. apply light_path_dark_suffix in H.
    now apply special_cased_not_ends_with_dark in H.
Qed.

Lemma ConnectionIcon_unresolved_theme_light_witness :
  src (ConnectionIcon "/dashboard" {| connection := "Expo" |}
         (theme_context None))
  = "/dashboard/img/libraries/expo-icon.svg".
Proof.
  exact (proj1 (ConnectionIcon_unresolved_theme_light "/dashboard"
                  {| connection := "Expo" |} (theme_context None) eq_refl)).
Defined.

(* ================================================================= *)
(** ** Properties of [getSessionAccessToken] *)

Section SessionAccessTokenFacts.

Variables Token Err Sdk : Type.
Variable getAccessToken : Sdk -> Settled Token Err * Sdk.

(** Outside a browser the function returns at its guard. *)
Lemma getSessionAccessToken_server (w : World Sdk) :
  window_defined w = false ->
  getSessionAccessToken getAccessToken w = (Fulfilled EmptyStr, w).
Proof.
  intros Hw. unfold getSessionAccessToken, bind, typeof_window_undefined, ret.
  now rewrite Hw.
Qed.

(** In a browser the function makes the SDK call once and maps its
    outcome: a token is passed on, a failure becomes [null]. *)
Lemma getSessionAccessToken_browser (w : World Sdk) :
  window_defined w = true ->
  getSessionAccessToken getAccessToken w
  = (match fst (getAccessToken (sdk w)) with
     | Fulfilled t => Fulfilled (AccessToken t)
     | Rejected _ => Fulfilled Null
     end,
     {| window_defined := window_defined w;
        sdk := snd (getAccessToken (sdk w));
        getAccessToken_calls := S (getAccessToken_calls w) |}).
Proof.
  destruct w as [wd s0 n]. cbn [window_defined]. intros ->.
  unfold getSessionAccessToken, bind, try_catch, typeof_window_undefined,
    await_getAccessToken, ret.
  cbn [window_defined sdk getAccessToken_calls negb].
  destruct (getAccessToken s0) as [[t | e] s]; reflexivity.
Qed.

End SessionAccessTokenFacts.

(** C1. In a browser-like context, whenever the SDK call fails,
    [getSessionAccessToken] is fulfilled with [null]; the value does
    not depend on what was thrown: any other failing run, with any
    other error, settles in the same way. *)
Theorem getSessionAccessToken_failure_null
    {Token Err Sdk : Type} (getAccessToken : Sdk -> Settled Token Err * Sdk)
    (w : World Sdk) (e : Err) (s : Sdk) :
  window_defined w = true ->
  getAccessToken (sdk w) = (Rejected e, s) ->
  fst (getSessionAccessToken getAccessToken w) = Fulfilled Null
  /\ forall (w' : World Sdk) (e' : Err) (s' : Sdk),
       window_defined w' = true ->
       getAccessToken (sdk w') = (Rejected e', s') ->
       fst (getSessionAccessToken getAccessToken w')
       = fst (getSessionAccessToken getAccessToken w).
Proof.
  intros Hw He.
  assert (R : forall w1 e1 s1,
             window_defined w1 = true ->
             getAccessToken (sdk w1) = (Rejected e1, s1) ->
             fst (getSessionAccessToken getAccessToken w1) = Fulfilled Null).
  { intros w1 e1 s1 H1 E1.
    rewrite getSessionAccessToken_browser by exact H1. now rewrite E1. }
  split.
  - exact (R w e s Hw He).
  - intros w' e' s' Hw' He'.
    now rewrite (R w e s Hw He), (R w' e' s' Hw' He').
Qed.

Lemma getSessionAccessToken_failure_null_witness :
  fst (getSessionAccessToken scripted_getAccessToken
         {| window_defined := true;
            sdk := [Rejected "NetworkError"; Fulfilled "jwt"];
            getAccessToken_calls := 0 |})
  = Fulfilled Null.
Proof.
  exact (proj1 (getSessionAccessToken_failure_null scripted_getAccessToken
                  {| window_defined := true;
                     sdk := [Rejected "NetworkError"; Fulfilled "jwt"];
                     getAccessToken_calls := 0 |}
                  "NetworkError" [Fulfilled "jwt"] eq_refl eq_refl)).
Defined.

(** C2. Outside a browser-like context, [getSessionAccessToken] is
    fulfilled with the empty string and the SDK is not called: the
    world, with the SDK's state and the count of its calls, is left as
    it was, and the outcome is the same for every SDK. *)
Theorem getSessionAccessToken_server_side
    {Token Err Sdk : Type} (getAccessToken : Sdk -> Settled Token Err * Sdk)
    (w : World Sdk) :
  window_defined w = false ->
  getSessionAccessToken getAccessToken w = (Fulfilled EmptyStr, w)
  /\ getAccessToken_calls (snd (getSessionAccessToken getAccessToken w))
     = getAccessToken_calls w
  /\ forall getAccessToken' : Sdk -> Settled Token Err * Sdk,
       getSessionAccessToken getAccessToken' w
       = getSessionAccessToken getAccessToken w.
Proof.
  intros Hw. split; [|split].
  - now apply getSessionAccessToken_server.
  - now rewrite getSessionAccessToken_server.
  - intros g. now rewrite !getSessionAccessToken_server.
Qed.

Lemma getSessionAccessToken_server_side_witness :
  getSessionAccessToken scripted_getAccessToken
    {| window_defined := false;
       sdk := [Fulfilled "jwt"];
       getAccessToken_calls := 0 |}
  = (Fulfilled EmptyStr,
     {| window_defined := false;
        sdk := [Fulfilled "jwt"];
        getAccessToken_calls := 0 |}).
Proof.
  exact (proj1 (getSessionAccessToken_server_side scripted_getAccessToken
                  {| window_defined := false;
                     sdk := [Fulfilled "jwt"];
                     getAccessToken_calls := 0 |} eq_refl)).
Defined.

(** C6. In every context and for every outcome of the SDK call,
    [getSessionAccessToken] is fulfilled with a value and is never
    rejected: the value is the empty string, [null], or the token the
    SDK gave. *)
Theorem getSessionAccessToken_never_rejects
    {Token Err Sdk : Type} (getAccessToken : Sdk -> Settled Token Err * Sdk)
    (w : World Sdk) :
  (exists v, fst (getSessionAccessToken getAccessToken w) = Fulfilled v)
  /\ forall e, fst (getSessionAccessToken getAccessToken w) <> Rejected e.
Proof.
  assert (H : exists v,
             fst (getSessionAccessToken getAccessToken w) = Fulfilled v).
  { destruct (window_defined w) eqn:Hw.
    - rewrite getSessionAccessToken_browser by exact Hw. cbn [fst].
      destruct (fst (getAccessToken (sdk w))) as [t | e];
        [now exists (AccessToken t) | now exists Null].
    - rewrite getSessionAccessToken_server by exact Hw. now exists EmptyStr. }
  split; [exact H|].
  destruct H as [v ->]. discriminate.
Qed.

(** C7. One invocation of [getSessionAccessToken] calls and awaits
    [getAccessToken] exactly once when [window] is defined and not at
    all otherwise, hence at most once: with [window] defined, the
    result is what that one call gave (its token, or [null] for its
    failure) and the SDK is left in the state that one call produced;
    without, the world is left as it was.  The count of calls grows by
    one and by nothing accordingly. *)
Theorem getSessionAccessToken_awaits_once
    {Token Err Sdk : Type} (getAccessToken : Sdk -> Settled Token Err * Sdk)
    (w : World Sdk) :
  (window_defined w = true ->
   getSessionAccessToken getAccessToken w
   = (match fst (getAccessToken (sdk w)) with
      | Fulfilled t => Fulfilled (AccessToken t)
      | Rejected _ => Fulfilled Null
      end,
      {| window_defined := true;
         sdk := snd (getAccessToken (sdk w));
         getAccessToken_calls := S (getAccessToken_calls w) |}))
  /\ (window_defined w = false ->
      getSessionAccessToken getAccessToken w = (Fulfilled EmptyStr, w))
  /\ getAccessToken_calls (snd (getSessionAccessToken getAccessToken w))
     = getAccessToken_calls w + (if window_defined w then 1 else 0)
  /\ getAccessToken_calls (snd (getSessionAccessToken getAccessToken w))
     <= getAccessToken_calls w + 1.
Proof.
  split; [|split].
  - intros Hw. rewrite getSessionAccessToken_browser by exact Hw.
    now rewrite Hw.
  - apply getSessionAccessToken_server.
  - destruct (window_defined w) eqn:Hw.
    + rewrite getSessionAccessToken_browser by exact Hw.
      cbn [snd getAccessToken_calls]. lia.
    + rewrite getSessionAccessToken_server by exact Hw. cbn [snd]. lia.
Qed.

(** With the scripted SDK, one invocation consumes exactly the first
    outcome of the script. *)
Lemma getSessionAccessToken_awaits_once_witness :
  getSessionAccessToken scripted_getAccessToken
    {| window_defined := true;
       sdk := [Rejected "NetworkError"; Fulfilled "jwt"];
       getAccessToken_calls := 0 |}
  = (Fulfilled Null,
     {| window_defined := true;
        sdk := [Fulfilled "jwt"];
        getAccessToken_calls := 1 |}).
Proof.
  exact (proj1 (getSessionAccessToken_awaits_once scripted_getAccessToken
                  {| window_defined := true;
                     sdk := [Rejected "NetworkError"; Fulfilled "jwt"];
                     getAccessToken_calls := 0 |}) eq_refl).
Defined.

(* ================================================================= *)
(** ** Further properties of [ConnectionIcon] *)

(** The identifiers that fall on a special-cased icon's dark file are
    not special-cased themselves. *)
Lemma special_cased_dark_name_plain (c1 c2 : string) :
  special_cased c1 ->
  JSString.toLowerCase c2 = JSString.toLowerCase c1 ++ "-dark" ->
  JSArray.includes ["expo"; "nextjs"] (JSString.toLowerCase c2) = false.
Proof. intros [E | E] ->; rewrite E; reflexivity. Qed.

(** Equal icon files, read back to the text between the directory and
    [-icon.svg]. *)
Lemma icon_file_inj (BASE_PATH a b : string) :
  BASE_PATH ++ "/img/libraries/" ++ a ++ "-icon.svg"
  = BASE_PATH ++ "/img/libraries/" ++ b ++ "-icon.svg" ->
  a = b.
Proof.
  intros H. do 2 apply append_inv_head in H. now apply append_inv_tail in H.
Qed.

(** X1. Under one theme context, two identifiers get the same icon
    path exactly when their lowercase forms are equal, or when the
    resolved theme contains [dark] and one of them is special-cased
    while the other is that one's lowercase form followed by [-dark]
    (as [expo] and [expo-dark]): the suffix is not kept apart from the
    identifier's own text. *)
Theorem ConnectionIcon_src_eq_iff
    (BASE_PATH c1 c2 : string) (useTheme : UseThemeProps) :
  src (ConnectionIcon BASE_PATH {| connection := c1 |} useTheme)
  = src (ConnectionIcon BASE_PATH {| connection := c2 |} useTheme)
  <-> JSString.toLowerCase c1 = JSString.toLowerCase c2
      \/ (theme_contains_dark (resolvedTheme useTheme)
          /\ ((special_cased c1
               /\ JSString.toLowerCase c2 = JSString.toLowerCase c1 ++ "-dark")
              \/ (special_cased c2
                  /\ JSString.toLowerCase c1
                     = JSString.toLowerCase c2 ++ "-dark"))).
Proof.
  rewrite !ConnectionIcon_src. cbn [connection].
  rewrite <- dark_test_spec. unfold dark_path, light_path.
  destruct (truthy _) eqn:D.
  - rewrite !andb_true_r. split.
    + destruct (JSArray.includes _ (JSString.toLowerCase c1)) eqn:S1;
        destruct (JSArray.includes _ (JSString.toLowerCase c2)) eqn:S2;
        intros H.
      * left. rewrite <- !(append_assoc _ "-dark" "-icon.svg") in H.
        apply icon_file_inj in H. now apply append_inv_tail in H.
      * right. split; [reflexivity|]. left.
        split; [now apply special_cased_includes|].
        rewrite <- (append_assoc _ "-dark" "-icon.svg") in H.
        apply icon_file_inj in H. now symmetry.
      * right. split; [reflexivity|]. right.
        split; [now apply special_cased_includes|].
        rewrite <- (append_assoc _ "-dark" "-icon.svg") in H.
        now apply icon_file_inj in H.
      * left. now apply icon_file_inj in H.
    + intros [E | [_ [[Hs E] | [Hs E]]]].
      * now rewrite E.
      * rewrite (special_cased_dark_name_plain c1 c2 Hs E).
        rewrite (proj2 (special_cased_includes c1) Hs).
        rewrite E. now rewrite append_assoc.
      * rewrite (special_cased_dark_name_plain c2 c1 Hs E).
        rewrite (proj2 (special_cased_includes c2) Hs).
        rewrite E. now rewrite append_assoc.
  - rewrite !andb_false_r. split.
    + intros H. left. now apply icon_file_inj in H.
    + intros [E | [Hd _]]; [now rewrite E | discriminate].
Qed.

(** X2. The alt text is the connection string as it was given, case
    included, followed by [ logo], whatever the base path and the
    theme; hence two renderings have the same alt text exactly when
    their connection strings are equal, also where their icon paths
    coincide. *)
Theorem ConnectionIcon_alt_eq_iff
    (BASE_PATH1 BASE_PATH2 c1 c2 : string) (useTheme1 useTheme2 : UseThemeProps) :
  alt (ConnectionIcon BASE_PATH1 {| connection := c1 |} useTheme1)
  = c1 ++ " logo"
  /\ (alt (ConnectionIcon BASE_PATH1 {| connection := c1 |} useTheme1)
      = alt (ConnectionIcon BASE_PATH2 {| connection := c2 |} useTheme2)
      <-> c1 = c2).
Proof.
  unfold ConnectionIcon; cbn [alt connection]. split; [reflexivity|]. split.
  - apply append_inv_tail.
  - now intros ->.
Qed.

(* ================================================================= *)
(** ** Further properties of [getSessionAccessToken] *)

(** X4. In a browser-like context, when the SDK call yields a token,
    [getSessionAccessToken] is fulfilled with that very token, having
    called the SDK once and left it in the state that call produced. *)
Theorem getSessionAccessToken_success_token
    {Token Err Sdk : Type} (getAccessToken : Sdk -> Settled Token Err * Sdk)
    (w : World Sdk) (t : Token) (s : Sdk) :
  window_defined w = true ->
  getAccessToken (sdk w) = (Fulfilled t, s) ->
  getSessionAccessToken getAccessToken w
  = (Fulfilled (AccessToken t),
     {| window_defined := true;
        sdk := s;
        getAccessToken_calls := S (getAccessToken_calls w) |}).
Proof.
  intros Hw E.
  rewrite getSessionAccessToken_browser by exact Hw.
  now rewrite E, Hw.
Qed.

Lemma getSessionAccessToken_success_token_witness :
  getSessionAccessToken scripted_getAccessToken
    {| window_defined := true;
       sdk := [Fulfilled "jwt"; Rejected "NetworkError"];
       getAccessToken_calls := 0 |}
  = (Fulfilled (AccessToken "jwt"),
     {| window_defined := true;
        sdk := [Rejected "NetworkError"];
        getAccessToken_calls := 1 |}).
Proof.
  exact (getSessionAccessToken_success_token scripted_getAccessToken
           {| window_defined := true;
              sdk := [Fulfilled "jwt"; Rejected "NetworkError"];
              getAccessToken_calls := 0 |}
           "jwt" [Rejected "NetworkError"] eq_refl eq_refl).
Defined.

Section RepeatedInvocations.

Variables Token Err Sdk : Type.
Variable getAccessToken : Sdk -> Settled Token Err * Sdk.

(** An invocation settles fulfilled, keeps the execution context and
    counts its SDK call. *)
Lemma getSessionAccessToken_step (w : World Sdk) :
  exists d w',
    getSessionAccessToken getAccessToken w = (Fulfilled d, w')
    /\ window_defined w' = window_defined w
    /\ getAccessToken_calls w'
       = getAccessToken_calls w + (if window_defined w then 1 else 0).
Proof.
  destruct (window_defined w) eqn:Hw.
  - rewrite getSessionAccessToken_browser by exact Hw.
    set (w' := {| window_defined := window_defined w;
                  sdk := snd (getAccessToken (sdk w));
                  getAccessToken_calls := S (getAccessToken_calls w) |}).
    assert (P : window_defined w' = true
                /\ getAccessToken_calls w' = getAccessToken_calls w + 1)
      by (cbn; split; [exact Hw | lia]).
    destruct (fst (getAccessToken (sdk w))) as [t | e].
    + exists (AccessToken t), w'. split; [reflexivity | exact P].
    + exists Null, w'. split; [reflexivity | exact P].
  - rewrite getSessionAccessToken_server by exact Hw.
    exists EmptyStr, w. split; [reflexivity|]. split; [exact Hw | lia].
Qed.

Lemma getSessionAccessToken_times_server (n : nat) (w : World Sdk) :
  window_defined w = false ->
  getSessionAccessToken_times getAccessToken n w
  = (Fulfilled (repeat EmptyStr n), w).
Proof.
  intros Hw. induction n as [|n IH]; [reflexivity|].
  cbn [getSessionAccessToken_times repeat]. unfold bind at 1.
  rewrite getSessionAccessToken_server by exact Hw.
  unfold bind at 1. now rewrite IH.
Qed.

Lemma getSessionAccessToken_times_browser (n : nat) (w : World Sdk) :
  window_defined w = true ->
  getSessionAccessToken_times getAccessToken n w
  = (Fulfilled (map data_of_outcome (sdk_outcomes getAccessToken n (sdk w))),
     {| window_defined := true;
        sdk := sdk_after getAccessToken n (sdk w);
        getAccessToken_calls := getAccessToken_calls w + n |}).
Proof.
  revert w. induction n as [|n IH]; intros [wd s c]; cbn [window_defined];
    intros ->.
  - cbn. now rewrite Nat.add_0_r.
  - cbn [getSessionAccessToken_times]. unfold bind at 1.
    rewrite getSessionAccessToken_browser by reflexivity.
    cbn [window_defined sdk getAccessToken_calls].
    assert (E : forall r : Settled Token Err,
               match r with
               | Fulfilled t => Fulfilled (E := Err) (AccessToken t)
               | Rejected _ => Fulfilled Null
               end = Fulfilled (data_of_outcome r))
      by (intros [t | e]; reflexivity).
    rewrite E. unfold bind at 1. rewrite IH by reflexivity.
    cbn [sdk getAccessToken_calls sdk_outcomes sdk_after map]. unfold ret.
    now rewrite Nat.add_succ_r.
Qed.

End RepeatedInvocations.

(** X5. The function keeps no token of its own.  With [window]
    defined, [n] invocations in a row make [n] successive SDK calls:
    they settle, fulfilled, with what those calls gave in order (each
    token, or [null] for each failure) and leave the SDK in the state
    the [n] calls produce, counted as [n] calls.  Without [window] they
    settle with [n] empty strings and leave the world as it was. *)
Theorem getSessionAccessToken_times_calls
    {Token Err Sdk : Type} (getAccessToken : Sdk -> Settled Token Err * Sdk)
    (n : nat) (w : World Sdk) :
  (window_defined w = true ->
   getSessionAccessToken_times getAccessToken n w
   = (Fulfilled (map data_of_outcome (sdk_outcomes getAccessToken n (sdk w))),
      {| window_defined := true;
         sdk := sdk_after getAccessToken n (sdk w);
         getAccessToken_calls := getAccessToken_calls w + n |}))
  /\ (window_defined w = false ->
      getSessionAccessToken_times getAccessToken n w
      = (Fulfilled (repeat EmptyStr n), w)).
Proof.
  split.
  - apply getSessionAccessToken_times_browser.
  - apply getSessionAccessToken_times_server.
Qed.

(** Three invocations against a script of a token, a failure and a
    token. *)
Lemma getSessionAccessToken_times_calls_witness :
  getSessionAccessToken_times scripted_getAccessToken 3
    {| window_defined := true;
       sdk := [Fulfilled "jwt1"; Rejected "NetworkError"; Fulfilled "jwt2";
               Fulfilled "jwt3"];
       getAccessToken_calls := 0 |}
  = (Fulfilled [AccessToken "jwt1"; Null; AccessToken "jwt2"],
     {| window_defined := true;
        sdk := [Fulfilled "jwt3"];
        getAccessToken_calls := 3 |}).
Proof.
  exact (proj1 (getSessionAccessToken_times_calls scripted_getAccessToken 3
                  {| window_defined := true;
                     sdk := [Fulfilled "jwt1"; Rejected "NetworkError";
                             Fulfilled "jwt2"; Fulfilled "jwt3"];
                     getAccessToken_calls := 0 |}) eq_refl).
Defined.

(* ================================================================= *)
(** ** Properties of [useSessionAccessTokenQuery] *)

Section ObjectFacts.

Variable Opaque : Type.

Lemma rest_properties_app (o1 o2 : JSObject Opaque) (taken : list string) :
  rest_properties (o1 ++ o2)%list taken
  = (rest_properties o1 taken ++ rest_properties o2 taken)%list.
Proof. apply filter_app. Qed.

Lemma rest_properties_In (o : JSObject Opaque) (k : string) (v : JSValue Opaque) :
  In (k, v) (rest_properties o ["enabled"]) <-> In (k, v) o /\ k <> "enabled".
Proof.
  unfold rest_properties. rewrite filter_In. cbn [fst JSArray.includes existsb].
  rewrite orb_false_r, negb_true_iff, String.eqb_neq.
  split; intros [H N]; (split; [exact H | congruence]).
Qed.

Lemma get_property_rest_other (o : JSObject Opaque) (k : string) :
  k <> "enabled" ->
  get_property (rest_properties o ["enabled"]) k = get_property o k.
Proof.
  intros N. unfold get_property, rest_properties.
  induction o as [|[k' v] o IH]; [reflexivity|].
  cbn [filter fst JSArray.includes existsb]. rewrite orb_false_r.
  destruct (String.eqb_spec "enabled" k') as [<- | N']; cbn [negb find fst].
  - destruct (String.eqb_spec "enabled" k) as [E | _]; [congruence | exact IH].
  - destruct (String.eqb k' k); [reflexivity | exact IH].
Qed.

Lemma get_property_rest_enabled (o : JSObject Opaque) :
  get_property (rest_properties o ["enabled"]) "enabled" = JSUndefined.
Proof.
  unfold get_property.
  destruct (find _ _) as [[k v]|] eqn:F; [|reflexivity].
  apply find_some in F. destruct F as [HIn E].
  apply rest_properties_In in HIn. cbn [fst] in E.
  apply String.eqb_eq in E. now destruct HIn as [_ N].
Qed.

End ObjectFacts.

(** X6. The caller's [enabled] option has no effect on the hook: an
    options object with an [enabled] property, whatever its value and
    wherever it stands, gives the same [useQuery] call as the object
    without it; and the hook called without an argument behaves as
    with the empty object. *)
Theorem useSessionAccessTokenQuery_ignores_enabled
    {Token Err Sdk Opaque QueryKey UseQueryResult : Type}
    (getAccessToken : Sdk -> Settled Token Err * Sdk)
    (authKeys_accessToken : unit -> QueryKey)
    (useQuery : QueryKey -> Async Err Sdk (SessionAccessTokenData Token) ->
                JSObject Opaque -> UseQueryResult)
    (before after : JSObject Opaque) (v : JSValue Opaque) :
  useSessionAccessTokenQuery getAccessToken authKeys_accessToken useQuery
    (Some (before ++ ("enabled", v) :: after)%list)
  = useSessionAccessTokenQuery getAccessToken authKeys_accessToken useQuery
      (Some (before ++ after)%list)
  /\ useSessionAccessTokenQuery getAccessToken authKeys_accessToken useQuery
       None
     = useSessionAccessTokenQuery getAccessToken authKeys_accessToken useQuery
         (Some []).
Proof.
  unfold useSessionAccessTokenQuery. split; [|reflexivity].
  now rewrite !rest_properties_app.
Qed.

(** X7. The options that reach [useQuery] (read off a [useQuery] that
    returns its options argument) are the caller's properties other
    than [enabled], each with its value: [enabled] reads as [undefined]
    there and every other key reads as in the caller's object. *)
Theorem useSessionAccessTokenQuery_forwards_rest
    {Token Err Sdk Opaque QueryKey : Type}
    (getAccessToken : Sdk -> Settled Token Err * Sdk)
    (authKeys_accessToken : unit -> QueryKey)
    (props : JSObject Opaque) :
  let forwarded :=
    useSessionAccessTokenQuery getAccessToken authKeys_accessToken
      (fun _ _ options => options) (Some props) in
  (forall k v, In (k, v) forwarded <-> In (k, v) props /\ k <> "enabled")
  /\ get_property forwarded "enabled" = JSUndefined
  /\ forall k, k <> "enabled" ->
       get_property forwarded k = get_property props k.
Proof.
  unfold useSessionAccessTokenQuery. cbv zeta. split; [|split].
  - intros k v. apply rest_properties_In.
  - apply get_property_rest_enabled.
  - intros k N. now apply get_property_rest_other.
Qed.

(** X8. Whatever options the caller passes, the hook registers the
    query under the one key [authKeys.accessToken()], and the query
    function it registers (read off a [useQuery] that returns its
    second argument) settles fulfilled in every world: the fetch never
    puts the query in its error state. *)
Theorem useSessionAccessTokenQuery_query
    {Token Err Sdk Opaque QueryKey : Type}
    (getAccessToken : Sdk -> Settled Token Err * Sdk)
    (authKeys_accessToken : unit -> QueryKey)
    (arg : option (JSObject Opaque)) (w : World Sdk) :
  useSessionAccessTokenQuery getAccessToken authKeys_accessToken
    (fun queryKey _ _ => queryKey) arg
  = authKeys_accessToken tt
  /\ exists d,
       fst (useSessionAccessTokenQuery getAccessToken authKeys_accessToken
              (fun _ queryFn _ => queryFn) arg w)
       = Fulfilled d.
Proof.
  unfold useSessionAccessTokenQuery. split; [reflexivity|].
  destruct (getSessionAccessToken_step Token Err Sdk getAccessToken w)
    as [d [w' [E _]]].
  exists d. now rewrite E.
Qed.
